(** * lib/model/service_map.go: the keyed service registry

    A [serviceMap] maps arbitrary comparable keys to services and keeps
    them started and stopped on a private [suture.Supervisor].  The
    registry is single-threaded ("Not safe for concurrent use"), so every
    method is a sequential program over

    - the two Go maps [services] and [tokens] (stdpp [gmap]s),
    - the state of the private supervisor, and
    - the calls that leave the registry: to the supervisor, to the event
      logger and to the visitor handed to [Each].

    Methods are written in a small state-and-trace monad so that they read
    like the Go bodies; the trace is what properties such as "exactly one
    stop", "no notification" or "stop before start" are stated on. *)

From stdpp Require Import gmap strings list fin_maps.
From Stdlib Require Import ZArith.

(** ** Collaborators *)

(** [time.Duration] is an [int64] count of nanoseconds. *)
Definition Duration : Type := Z.

(** What the registry needs from [suture.Supervisor]: [suture.New],
    [Add], [Remove], [RemoveAndWait] and [Serve].  The supervisor is a
    mutable object, so every method also returns its next state.  Go's
    [error] results are [option Err], with [None] for [nil]. *)
Class Supervisor (Sup S Tok Ctx Err : Type) := {
  sup_New : string → Sup;
  sup_Add : S → Sup → Tok * Sup;
  sup_Remove : Tok → Sup → option Err * Sup;
  sup_RemoveAndWait : Tok → Duration → Sup → option Err * Sup;
  sup_Serve : Ctx → Sup → option Err * Sup;
}.

(** What [fmt.Sprintf] needs to render the registry and a key: the [%T]
    names of the two type parameters, the [%p] rendering of the receiver
    and the [%v] rendering of a key. *)
Class Fmt (K : Type) := {
  fmt_T_K : string;
  fmt_T_S : string;
  fmt_p : string;
  fmt_v : K → string;
}.

(** ** A supervisor to run the registry on

    [suture.Supervisor] itself is outside this package.  The examples at
    the end of the file run the registry on this stand-in: it hands out
    consecutive tokens, keeps the list of running services, and reports
    [ErrTimeout] from [RemoveAndWait] when stopping takes longer than the
    (positive) timeout. *)
Module Demo.

Inductive Err := ErrTimeout | ErrSupervisorNotRunning.

Inductive EventType := Failure.

Record Sup := mk_Sup {
  sup_name : string;
  next_id : N;
  running : list (N * string);
  serving : bool;
}.

Definition stop (tok : N) (sup : Sup) : Sup :=
  mk_Sup (sup_name sup) (next_id sup)
         (filter (λ r, r.1 ≠ tok) (running sup)) (serving sup).

Definition supervisor (stop_takes : Duration)
  : Supervisor Sup string N bool Err := {|
  sup_New name := mk_Sup name 1 [] false;
  sup_Add v sup :=
    (next_id sup,
     mk_Sup (sup_name sup) (N.succ (next_id sup))
            ((next_id sup, v) :: running sup) (serving sup));
  sup_Remove tok sup := (None, stop tok sup);
  sup_RemoveAndWait tok timeout sup :=
    (if bool_decide (0 < timeout ∧ timeout < stop_takes)%Z
     then Some ErrTimeout else None,
     stop tok sup);
  sup_Serve ctx sup :=
    (if ctx : bool then None else Some ErrSupervisorNotRunning,
     mk_Sup (sup_name sup) (next_id sup) [] true);
|}.

Definition fmt : Fmt string := {|
  fmt_T_K := "string";
  fmt_T_S := "string";
  fmt_p := "0xc000012345";
  fmt_v k := k;
|}.

End Demo.

Section service_map.

(** [K comparable]: the key type of a Go map. *)
Context {K : Type} `{Countable K}.

(** [S suture.Service], with the zero value of the type. *)
Context {S : Type} (zero : S).

(** [suture.ServiceToken], [*suture.Supervisor], [context.Context] and
    [error]. *)
Context {Tok Sup Ctx Err : Type} {sv : Supervisor Sup S Tok Ctx Err}.

(** [events.Logger], [events.EventType] and the constant
    [events.Failure]. *)
Context {L EventType : Type} (Failure : EventType).

Context {fm : Fmt K}.

(** Go leaves the iteration order of [range] over a map unspecified;
    [range_order] is the order the runtime picks. *)
Variable range_order : list (K * S) → list (K * S).
Hypothesis range_order_perm : ∀ l, range_order l ≡ₚ l.

(** ** Data model *)

Record serviceMap := mk_serviceMap {
  services : gmap K S;
  tokens : gmap K Tok;
  supervisor : Sup;
  eventLogger : L;
}.

(** A call that leaves the registry. *)
Inductive Call :=
| SupAdd (v : S)
| SupRemove (tok : Tok)
| SupRemoveAndWait (tok : Tok) (timeout : Duration)
| SupServe (ctx : Ctx)
| LogCall (logger : L) (t : EventType) (msg : string)
| Visit (k : K) (v : S).

(** ** The registry monad: state passing plus the trace of calls *)

Definition M (A : Type) : Type := serviceMap → A * serviceMap * list Call.

#[local] Instance M_ret : MRet M := λ A a s, (a, s, []).
#[local] Instance M_bind : MBind M := λ A B f m s,
  let '(a, s1, t1) := m s in
  let '(b, s2, t2) := f a s1 in
  (b, s2, t1 ++ t2).

Definition result {A} (r : A * serviceMap * list Call) : A := r.1.1.
Definition state_after {A} (r : A * serviceMap * list Call) : serviceMap := r.1.2.
Definition calls {A} (r : A * serviceMap * list Call) : list Call := r.2.

(** [s.tokens[k]] with the comma-ok form, and [s.services[k]]. *)
Definition tokens_lookup (k : K) : M (option Tok) :=
  λ s, (tokens s !! k, s, []).
Definition services_lookup (k : K) : M (option S) :=
  λ s, (services s !! k, s, []).

(** [s.services[k] = v] and [s.tokens[k] = tok]. *)
Definition services_store (k : K) (v : S) : M unit :=
  λ s, (tt, mk_serviceMap (<[k:=v]> (services s)) (tokens s)
                          (supervisor s) (eventLogger s), []).
Definition tokens_store (k : K) (tok : Tok) : M unit :=
  λ s, (tt, mk_serviceMap (services s) (<[k:=tok]> (tokens s))
                          (supervisor s) (eventLogger s), []).

(** [delete(s.services, k)] and [delete(s.tokens, k)]. *)
Definition services_delete (k : K) : M unit :=
  λ s, (tt, mk_serviceMap (delete k (services s)) (tokens s)
                          (supervisor s) (eventLogger s), []).
Definition tokens_delete (k : K) : M unit :=
  λ s, (tt, mk_serviceMap (services s) (delete k (tokens s))
                          (supervisor s) (eventLogger s), []).

(** Calls on [s.supervisor]. *)
Definition on_supervisor {A} (c : Call) (f : Sup → A * Sup) : M A :=
  λ s, let '(a, sup') := f (supervisor s) in
       (a, mk_serviceMap (services s) (tokens s) sup' (eventLogger s), [c]).

Definition supervisor_Add (v : S) : M Tok :=
  on_supervisor (SupAdd v) (sup_Add v).
Definition supervisor_Remove (tok : Tok) : M (option Err) :=
  on_supervisor (SupRemove tok) (sup_Remove tok).
Definition supervisor_RemoveAndWait (tok : Tok) (timeout : Duration)
  : M (option Err) :=
  on_supervisor (SupRemoveAndWait tok timeout) (sup_RemoveAndWait tok timeout).
Definition supervisor_Serve (ctx : Ctx) : M (option Err) :=
  on_supervisor (SupServe ctx) (sup_Serve ctx).

(** [s.eventLogger.Log(t, msg)]. *)
Definition eventLogger_Log (t : EventType) (msg : string) : M unit :=
  λ s, (tt, s, [LogCall (eventLogger s) t msg]).

(** ** The methods *)

(** [String]: [fmt.Sprintf("serviceMap[%T, %T]@%p", kv, sv, s)]. *)
Definition String : string :=
  "serviceMap[" +:+ fmt_T_K +:+ ", " +:+ fmt_T_S +:+ "]@" +:+ fmt_p.

(** [newServiceMap]. *)
Definition newServiceMap (logger : L) : serviceMap :=
  mk_serviceMap ∅ ∅ (sup_New String) logger.

(** [Add]. *)
Definition Add (k : K) (v : S) : M unit :=
  tok_ok ← tokens_lookup k;
  match tok_ok with
  | Some tok =>
      supervisor_Remove tok ;;
      eventLogger_Log Failure
        (String +:+ " replaced service at key " +:+ fmt_v k)
  | None => mret tt
  end ;;
  services_store k v ;;
  tok ← supervisor_Add v;
  tokens_store k tok.

(** [Get]. *)
Definition Get (k : K) : M (S * bool) :=
  v_ok ← services_lookup k;
  match v_ok with
  | Some v => mret (v, true)
  | None => mret (zero, false)
  end.

(** [Remove]. *)
Definition Remove (k : K) : M bool :=
  tok_ok ← tokens_lookup k;
  found ← match tok_ok with
          | Some tok => supervisor_Remove tok ;; mret true
          | None => mret false
          end;
  services_delete k ;;
  tokens_delete k ;;
  mret found.

(** [RemoveAndWait]. *)
Definition RemoveAndWait (k : K) (timeout : Duration) : M bool :=
  tok_ok ← tokens_lookup k;
  found ← match tok_ok with
          | Some tok => supervisor_RemoveAndWait tok timeout ;; mret true
          | None => mret false
          end;
  services_delete k ;;
  tokens_delete k ;;
  mret found.

(** The visitor of [Each] is a Go closure [func(K, S)]: it is handed the
    key and the service, not the registry, and whatever it captures is
    its own state [A]. *)
Definition visit {A} (fn : K → S → A → A) (k : K) (v : S) (a : A) : M A :=
  λ s, (fn k v a, s, [Visit k v]).

Fixpoint for_range {A} (fn : K → S → A → A) (l : list (K * S)) (a : A) : M A :=
  match l with
  | [] => mret a
  | (key, svc) :: l' => a' ← visit fn key svc a; for_range fn l' a'
  end.

(** [Each]. *)
Definition Each {A} (fn : K → S → A → A) (a : A) : M A :=
  λ s, for_range fn (range_order (map_to_list (services s))) a s.

(** [Serve]. *)
Definition Serve (ctx : Ctx) : M (option Err) :=
  supervisor_Serve ctx.

(** ** Observations on a trace *)

(** Stops issued to the supervisor without waiting ([Supervisor.Remove]). *)
Definition stops (t : list Call) : list Tok :=
  omap (λ c, match c with SupRemove tok => Some tok | _ => None end) t.

(** Stops issued with a bounded wait ([Supervisor.RemoveAndWait]). *)
Definition waited_stops (t : list Call) : list (Tok * Duration) :=
  omap (λ c, match c with
             | SupRemoveAndWait tok timeout => Some (tok, timeout)
             | _ => None
             end) t.

(** Starts issued to the supervisor ([Supervisor.Add]). *)
Definition starts (t : list Call) : list S :=
  omap (λ c, match c with SupAdd v => Some v | _ => None end) t.

(** Notifications emitted to the event logger. *)
Definition notifications (t : list Call) : list (L * EventType * string) :=
  omap (λ c, match c with
             | LogCall logger ty msg => Some (logger, ty, msg)
             | _ => None
             end) t.

(** Invocations of the visitor. *)
Definition visits (t : list Call) : list (K * S) :=
  omap (λ c, match c with Visit k v => Some (k, v) | _ => None end) t.

(** The visits that carry key [k]. *)
Definition visits_of (k : K) (vs : list (K * S)) : list (K * S) :=
  filter (λ kv, kv.1 = k) vs.

(** ** Sequences of operations *)

Inductive Op :=
| OpAdd (k : K) (v : S)
| OpGet (k : K)
| OpRemove (k : K)
| OpRemoveAndWait (k : K) (timeout : Duration)
| OpEach (fn : K → S → unit → unit)
| OpServe (ctx : Ctx).

Definition perform (o : Op) : M unit :=
  match o with
  | OpAdd k v => Add k v
  | OpGet k => Get k ;; mret tt
  | OpRemove k => Remove k ;; mret tt
  | OpRemoveAndWait k timeout => RemoveAndWait k timeout ;; mret tt
  | OpEach fn => Each fn tt
  | OpServe ctx => Serve ctx ;; mret tt
  end.

(** The registry states after each operation of [ops], in order. *)
Fixpoint states_along (ops : list Op) (s : serviceMap) : list serviceMap :=
  match ops with
  | [] => []
  | o :: ops' =>
      let s' := state_after (perform o s) in
      s' :: states_along ops' s'
  end.

(** The registry state after all of [ops]. *)
Definition run (ops : list Op) (s : serviceMap) : serviceMap :=
  foldl (λ s o, state_after (perform o s)) s ops.

(** The two maps are in lock-step: they have the same keys. *)
Definition consistent (s : serviceMap) : Prop :=
  dom (services s) = dom (tokens s).

(** A key is registered when [services] has an entry for it. *)
Definition registered (s : serviceMap) (k : K) : Prop :=
  is_Some (services s !! k).

(** The calls made by all of [ops], in order. *)
Fixpoint calls_along (ops : list Op) (s : serviceMap) : list Call :=
  match ops with
  | [] => []
  | o :: ops' =>
      calls (perform o s) ++ calls_along ops' (state_after (perform o s))
  end.

(** Tokens a stop was requested for, with or without a wait. *)
Definition stopped (t : list Call) : list Tok :=
  omap (λ c, match c with
             | SupRemove tok | SupRemoveAndWait tok _ => Some tok
             | _ => None
             end) t.

(** The supervisor state in which [Add k v] issues its start: the stop of
    the previous occupant of [k], if there is one, has been issued. *)
Definition supervisor_at_start (s : serviceMap) (k : K) : Sup :=
  match tokens s !! k with
  | Some tok => (sup_Remove tok (supervisor s)).2
  | None => supervisor s
  end.

(** The token the supervisor returns to [Add k v] for [v]. *)
Definition token_of_Add (s : serviceMap) (k : K) (v : S) : Tok :=
  (sup_Add v (supervisor_at_start s k)).1.

(** The (service, token) pairs the supervisor hands out during one
    operation, and during all of [ops]. *)
Definition issued (o : Op) (s : serviceMap) : list (S * Tok) :=
  match o with
  | OpAdd k v => [(v, token_of_Add s k v)]
  | _ => []
  end.

Fixpoint issued_along (ops : list Op) (s : serviceMap) : list (S * Tok) :=
  match ops with
  | [] => []
  | o :: ops' => issued o s ++ issued_along ops' (state_after (perform o s))
  end.

(** The message of the notification [Add] emits when it replaces the
    service at [k]. *)
Definition replaced_message (k : K) : string :=
  String +:+ " replaced service at key " +:+ fmt_v k.

(** Every stored token is stored beside a service, and history [h] has
    the supervisor handing out that token for that service. *)
Definition linked (h : list (S * Tok)) (s : serviceMap) : Prop :=
  ∀ k tok, tokens s !! k = Some tok →
           ∃ v, services s !! k = Some v ∧ (v, tok) ∈ h.

(** * Properties *)

(** ** What each method computes *)

Ltac run_monad :=
  unfold Add, Get, Remove, RemoveAndWait, Serve, Each,
    supervisor_Add, supervisor_Remove, supervisor_RemoveAndWait,
    supervisor_Serve, on_supervisor, eventLogger_Log,
    tokens_lookup, services_lookup, services_store, tokens_store,
    services_delete, tokens_delete, visit,
    mbind, M_bind, mret, M_ret; simpl.

Lemma Add_vacant_eq s k v :
  tokens s !! k = None →
  Add k v s =
    (tt,
     mk_serviceMap (<[k:=v]> (services s))
                   (<[k:=(sup_Add v (supervisor s)).1]> (tokens s))
                   (sup_Add v (supervisor s)).2 (eventLogger s),
     [SupAdd v]).
Proof.
  intros Hk. run_monad. rewrite Hk. simpl.
  by destruct (sup_Add v (supervisor s)).
Qed.

Lemma Add_occupied_eq s k v tok :
  tokens s !! k = Some tok →
  let sup1 := (sup_Remove tok (supervisor s)).2 in
  Add k v s =
    (tt,
     mk_serviceMap (<[k:=v]> (services s))
                   (<[k:=(sup_Add v sup1).1]> (tokens s))
                   (sup_Add v sup1).2 (eventLogger s),
     [SupRemove tok;
      LogCall (eventLogger s) Failure
        (String +:+ " replaced service at key " +:+ fmt_v k);
      SupAdd v]).
Proof.
  intros Hk. run_monad. rewrite Hk. simpl.
  destruct (sup_Remove tok (supervisor s)) as [e sup1]. simpl.
  by destruct (sup_Add v sup1).
Qed.

Lemma Get_eq s k :
  Get k s = (match services s !! k with
             | Some v => (v, true)
             | None => (zero, false)
             end, s, []).
Proof. run_monad. by destruct (services s !! k). Qed.

Lemma Remove_absent_eq s k :
  tokens s !! k = None →
  Remove k s =
    (false,
     mk_serviceMap (delete k (services s)) (delete k (tokens s))
                   (supervisor s) (eventLogger s),
     []).
Proof. intros Hk. run_monad. by rewrite Hk. Qed.

Lemma Remove_present_eq s k tok :
  tokens s !! k = Some tok →
  Remove k s =
    (true,
     mk_serviceMap (delete k (services s)) (delete k (tokens s))
                   (sup_Remove tok (supervisor s)).2 (eventLogger s),
     [SupRemove tok]).
Proof.
  intros Hk. run_monad. rewrite Hk. simpl.
  by destruct (sup_Remove tok (supervisor s)).
Qed.

Lemma RemoveAndWait_absent_eq s k timeout :
  tokens s !! k = None →
  RemoveAndWait k timeout s =
    (false,
     mk_serviceMap (delete k (services s)) (delete k (tokens s))
                   (supervisor s) (eventLogger s),
     []).
Proof. intros Hk. run_monad. by rewrite Hk. Qed.

Lemma RemoveAndWait_present_eq s k timeout tok :
  tokens s !! k = Some tok →
  RemoveAndWait k timeout s =
    (true,
     mk_serviceMap (delete k (services s)) (delete k (tokens s))
                   (sup_RemoveAndWait tok timeout (supervisor s)).2
                   (eventLogger s),
     [SupRemoveAndWait tok timeout]).
Proof.
  intros Hk. run_monad. rewrite Hk. simpl.
  by destruct (sup_RemoveAndWait tok timeout (supervisor s)).
Qed.

Lemma Serve_eq s ctx :
  Serve ctx s =
    ((sup_Serve ctx (supervisor s)).1,
     mk_serviceMap (services s) (tokens s)
                   (sup_Serve ctx (supervisor s)).2 (eventLogger s),
     [SupServe ctx]).
Proof. run_monad. by destruct (sup_Serve ctx (supervisor s)). Qed.

Lemma for_range_eq {A} (fn : K → S → A → A) l a s :
  for_range fn l a s =
    (foldl (λ acc kv, fn kv.1 kv.2 acc) a l, s, (λ kv, Visit kv.1 kv.2) <$> l).
Proof.
  revert a. induction l as [|[key svc] l IH]; intros a; [done|].
  simpl. unfold mbind, M_bind, visit. by rewrite IH.
Qed.

Lemma Each_eq {A} (fn : K → S → A → A) a s :
  Each fn a s =
    (foldl (λ acc kv, fn kv.1 kv.2 acc) a
           (range_order (map_to_list (services s))),
     s,
     (λ kv, Visit kv.1 kv.2) <$> range_order (map_to_list (services s))).
Proof. unfold Each. apply for_range_eq. Qed.

(** ** Lock-step of the two maps *)

Lemma consistent_lookup s k :
  consistent s → (is_Some (services s !! k) ↔ is_Some (tokens s !! k)).
Proof. unfold consistent. intros Hd. by rewrite <-!elem_of_dom, Hd. Qed.

Lemma consistent_registered s k :
  consistent s → registered s k → ∃ tok, tokens s !! k = Some tok.
Proof. intros Hc Hr. by apply (consistent_lookup s k Hc). Qed.

Lemma consistent_vacant s k :
  consistent s → services s !! k = None → tokens s !! k = None.
Proof.
  intros Hc Hk. apply eq_None_not_Some. rewrite <-(consistent_lookup s k Hc).
  by rewrite Hk; intros [? ?].
Qed.

Lemma consistent_new logger : consistent (newServiceMap logger).
Proof. unfold consistent. simpl. by rewrite !dom_empty_L. Qed.

Lemma state_after_discard {A} (m : M A) s :
  state_after ((m ;; mret tt) s) = state_after (m s).
Proof.
  unfold mbind, M_bind, mret, M_ret, state_after.
  by destruct (m s) as [[a s1] t1].
Qed.

Lemma Add_consistent s k v :
  consistent s → consistent (state_after (Add k v s)).
Proof.
  unfold consistent. intros Hc.
  destruct (tokens s !! k) as [tok|] eqn:Hk.
  - rewrite (Add_occupied_eq s k v tok Hk). simpl.
    by rewrite !dom_insert_L, Hc.
  - rewrite (Add_vacant_eq s k v Hk). simpl.
    by rewrite !dom_insert_L, Hc.
Qed.

Lemma Remove_consistent s k :
  consistent s → consistent (state_after (Remove k s)).
Proof.
  unfold consistent. intros Hc.
  destruct (tokens s !! k) as [tok|] eqn:Hk.
  - rewrite (Remove_present_eq s k tok Hk). simpl.
    by rewrite !dom_delete_L, Hc.
  - rewrite (Remove_absent_eq s k Hk). simpl.
    by rewrite !dom_delete_L, Hc.
Qed.

Lemma RemoveAndWait_consistent s k timeout :
  consistent s → consistent (state_after (RemoveAndWait k timeout s)).
Proof.
  unfold consistent. intros Hc.
  destruct (tokens s !! k) as [tok|] eqn:Hk.
  - rewrite (RemoveAndWait_present_eq s k timeout tok Hk). simpl.
    by rewrite !dom_delete_L, Hc.
  - rewrite (RemoveAndWait_absent_eq s k timeout Hk). simpl.
    by rewrite !dom_delete_L, Hc.
Qed.

Lemma perform_consistent o s :
  consistent s → consistent (state_after (perform o s)).
Proof.
  intros Hc. destruct o as [k v|k|k|k timeout|fn|ctx]; simpl.
  - by apply Add_consistent.
  - by rewrite state_after_discard, Get_eq.
  - rewrite state_after_discard. by apply Remove_consistent.
  - rewrite state_after_discard. by apply RemoveAndWait_consistent.
  - by rewrite Each_eq.
  - by rewrite state_after_discard, Serve_eq.
Qed.

Lemma run_consistent ops s : consistent s → consistent (run ops s).
Proof.
  revert s. induction ops as [|o ops IH]; intros s Hc; [done|].
  simpl. by apply IH, perform_consistent.
Qed.

(** Every state the methods can reach from a fresh registry is in
    lock-step, so the results below that assume [consistent] apply to it. *)
Lemma reachable_consistent logger ops :
  consistent (run ops (newServiceMap logger)).
Proof. apply run_consistent, consistent_new. Qed.

(** C1. Starting from a freshly constructed registry, after each operation
    of any sequence of Add, Get, Remove, RemoveAndWait, Each and Serve
    calls, the [services] map and the [tokens] map have exactly the same
    set of keys. *)
Theorem maps_in_lock_step logger (ops : list Op) :
  Forall (λ s, dom (services s) = dom (tokens s))
         (states_along ops (newServiceMap logger)).
Proof.
  fold consistent.
  pose proof (consistent_new logger) as Hc.
  generalize dependent (newServiceMap logger).
  induction ops as [|o ops IH]; intros s Hc; simpl.
  - constructor.
  - pose proof (perform_consistent o s Hc) as Hc'.
    constructor; [exact Hc'|]. by apply IH.
Qed.

(** ** Add *)

(** C2. In a registry state where key [k] holds a service, [Add k v]
    issues exactly one stop, for the token stored at [k], emits exactly one
    notification to the registry's event logger, issues exactly one start,
    for [v], and afterwards [Get k] returns [(v, true)]. *)
Theorem Add_occupied_replaces s k v old :
  consistent s →
  services s !! k = Some old →
  ∃ tok,
    tokens s !! k = Some tok ∧
    stops (calls (Add k v s)) = [tok] ∧
    waited_stops (calls (Add k v s)) = [] ∧
    notifications (calls (Add k v s)) =
      [(eventLogger s, Failure,
        String +:+ " replaced service at key " +:+ fmt_v k)] ∧
    starts (calls (Add k v s)) = [v] ∧
    result (Get k (state_after (Add k v s))) = (v, true).
Proof.
  intros Hc Hold.
  destruct (consistent_registered s k Hc) as [tok Htok]; [by exists old|].
  exists tok. rewrite (Add_occupied_eq s k v tok Htok), Get_eq. simpl.
  by rewrite lookup_insert_eq.
Qed.

(** C8. When [Add k v] replaces a service, the stop of the prior occupant
    is issued to the supervisor before the start of [v], no start comes
    before that stop, and the stop and the replacement notification are
    both among the calls [Add] makes before it returns. *)
Theorem Add_stops_before_it_starts s k v old :
  consistent s →
  services s !! k = Some old →
  ∃ tok before between after,
    tokens s !! k = Some tok ∧
    calls (Add k v s) =
      before ++ SupRemove tok :: between ++ SupAdd v :: after ∧
    starts before = [] ∧
    starts between = [] ∧
    SupRemove tok ∈ calls (Add k v s) ∧
    LogCall (eventLogger s) Failure
      (String +:+ " replaced service at key " +:+ fmt_v k)
      ∈ calls (Add k v s).
Proof.
  intros Hc Hold.
  destruct (consistent_registered s k Hc) as [tok Htok]; [by exists old|].
  exists tok, [],
    [LogCall (eventLogger s) Failure
       (String +:+ " replaced service at key " +:+ fmt_v k)], [].
  rewrite (Add_occupied_eq s k v tok Htok). simpl.
  split_and!; try done.
  - apply list_elem_of_here.
  - apply list_elem_of_further, list_elem_of_here.
Qed.

(** C9. In a registry state where key [k] is absent, [Add k v] issues
    exactly one supervisor start, for [v], and nothing else: no stop and no
    notification. *)
Theorem Add_vacant_only_starts s k v :
  consistent s →
  services s !! k = None →
  calls (Add k v s) = [SupAdd v] ∧
  starts (calls (Add k v s)) = [v] ∧
  stops (calls (Add k v s)) = [] ∧
  waited_stops (calls (Add k v s)) = [] ∧
  notifications (calls (Add k v s)) = [].
Proof.
  intros Hc Hk.
  by rewrite (Add_vacant_eq s k v (consistent_vacant s k Hc Hk)).
Qed.

(** ** Get *)

(** C5. [Get k] returns the service registered at [k] together with
    [true] when [k] is present, and the zero value of the service type
    together with [false] when it is absent; either way the registry state
    is unchanged and no call is made to the supervisor, the logger or
    anything else. *)
Theorem Get_reads_services s k :
  (∀ v, services s !! k = Some v → result (Get k s) = (v, true)) ∧
  (services s !! k = None → result (Get k s) = (zero, false)) ∧
  state_after (Get k s) = s ∧
  calls (Get k s) = [].
Proof.
  rewrite Get_eq. unfold result, state_after, calls. simpl.
  repeat split; [intros v Hv|intros Hv]; by rewrite Hv.
Qed.

(** ** Remove *)

(** C3. [Remove k] on an absent key returns [false] and makes no call at
    all; on a present key it returns [true] and issues exactly one
    supervisor stop, for the token stored at [k]; in both cases [k] is gone
    from both maps afterwards, and a second [Remove k] returns [false]. *)
Theorem Remove_semantics s k :
  consistent s →
  (¬ registered s k →
     result (Remove k s) = false ∧ calls (Remove k s) = []) ∧
  (registered s k →
     ∃ tok, tokens s !! k = Some tok ∧
            result (Remove k s) = true ∧
            calls (Remove k s) = [SupRemove tok] ∧
            stops (calls (Remove k s)) = [tok]) ∧
  services (state_after (Remove k s)) = delete k (services s) ∧
  tokens (state_after (Remove k s)) = delete k (tokens s) ∧
  services (state_after (Remove k s)) !! k = None ∧
  tokens (state_after (Remove k s)) !! k = None ∧
  result (Remove k (state_after (Remove k s))) = false ∧
  calls (Remove k (state_after (Remove k s))) = [].
Proof.
  intros Hc.
  assert (Hgone : tokens (state_after (Remove k s)) !! k = None).
  { destruct (tokens s !! k) as [tok|] eqn:Hk.
    - rewrite (Remove_present_eq s k tok Hk). apply lookup_delete_eq.
    - rewrite (Remove_absent_eq s k Hk). apply lookup_delete_eq. }
  rewrite (Remove_absent_eq _ k Hgone).
  split_and!; try done.
  - intros Hr. rewrite Remove_absent_eq; [done|].
    apply consistent_vacant; [done|]. by apply eq_None_not_Some.
  - intros Hr. destruct (consistent_registered s k Hc Hr) as [tok Htok].
    exists tok. by rewrite (Remove_present_eq s k tok Htok).
  - destruct (tokens s !! k) as [tok|] eqn:Hk.
    + by rewrite (Remove_present_eq s k tok Hk).
    + by rewrite (Remove_absent_eq s k Hk).
  - destruct (tokens s !! k) as [tok|] eqn:Hk.
    + by rewrite (Remove_present_eq s k tok Hk).
    + by rewrite (Remove_absent_eq s k Hk).
  - destruct (tokens s !! k) as [tok|] eqn:Hk.
    + rewrite (Remove_present_eq s k tok Hk). apply lookup_delete_eq.
    + rewrite (Remove_absent_eq s k Hk). apply lookup_delete_eq.
Qed.

(** ** Serve *)

(** C7. [Serve ctx] returns exactly what the supervisor's [Serve] returns
    on the same cancellation signal, error or nil; it makes that one call
    and leaves both maps alone. *)
Theorem Serve_returns_supervisor_result s ctx :
  result (Serve ctx s) = (sup_Serve ctx (supervisor s)).1 ∧
  (is_Some (result (Serve ctx s)) ↔
   is_Some (sup_Serve ctx (supervisor s)).1) ∧
  calls (Serve ctx s) = [SupServe ctx] ∧
  services (state_after (Serve ctx s)) = services s ∧
  tokens (state_after (Serve ctx s)) = tokens s.
Proof. by rewrite Serve_eq. Qed.

(** ** Other keys *)

Lemma Add_frame s k v j :
  k ≠ j →
  services (state_after (Add k v s)) !! j = services s !! j ∧
  tokens (state_after (Add k v s)) !! j = tokens s !! j.
Proof.
  intros Hne. destruct (tokens s !! k) as [tok|] eqn:Hk.
  - rewrite (Add_occupied_eq s k v tok Hk). simpl.
    by rewrite !lookup_insert_ne.
  - rewrite (Add_vacant_eq s k v Hk). simpl.
    by rewrite !lookup_insert_ne.
Qed.

Lemma Remove_maps s k :
  services (state_after (Remove k s)) = delete k (services s) ∧
  tokens (state_after (Remove k s)) = delete k (tokens s).
Proof.
  destruct (tokens s !! k) as [tok|] eqn:Hk.
  - by rewrite (Remove_present_eq s k tok Hk).
  - by rewrite (Remove_absent_eq s k Hk).
Qed.

Lemma RemoveAndWait_maps s k timeout :
  services (state_after (RemoveAndWait k timeout s)) = delete k (services s) ∧
  tokens (state_after (RemoveAndWait k timeout s)) = delete k (tokens s).
Proof.
  destruct (tokens s !! k) as [tok|] eqn:Hk.
  - by rewrite (RemoveAndWait_present_eq s k timeout tok Hk).
  - by rewrite (RemoveAndWait_absent_eq s k timeout Hk).
Qed.

Lemma Get_result_lookup s s' j :
  services s' !! j = services s !! j →
  result (Get j s') = result (Get j s).
Proof. intros Hj. by rewrite !Get_eq, Hj. Qed.

(** C10. For a key [j] other than [k], [Add k v], [Remove k] and
    [RemoveAndWait k timeout] leave the entries for [j] in [services] and
    in [tokens] as they were, so [Get j] returns the same before and
    after. *)
Theorem other_keys_untouched s k j v timeout :
  j ≠ k →
  (services (state_after (Add k v s)) !! j = services s !! j ∧
   tokens (state_after (Add k v s)) !! j = tokens s !! j ∧
   result (Get j (state_after (Add k v s))) = result (Get j s)) ∧
  (services (state_after (Remove k s)) !! j = services s !! j ∧
   tokens (state_after (Remove k s)) !! j = tokens s !! j ∧
   result (Get j (state_after (Remove k s))) = result (Get j s)) ∧
  (services (state_after (RemoveAndWait k timeout s)) !! j = services s !! j ∧
   tokens (state_after (RemoveAndWait k timeout s)) !! j = tokens s !! j ∧
   result (Get j (state_after (RemoveAndWait k timeout s))) = result (Get j s)).
Proof.
  intros Hne.
  destruct (Add_frame s k v j) as [Ha1 Ha2]; [done|].
  destruct (Remove_maps s k) as [Hr1 Hr2].
  destruct (RemoveAndWait_maps s k timeout) as [Hw1 Hw2].
  assert (Hrs : services (state_after (Remove k s)) !! j = services s !! j)
    by (by rewrite Hr1, lookup_delete_ne).
  assert (Hws : services (state_after (RemoveAndWait k timeout s)) !! j
                = services s !! j)
    by (by rewrite Hw1, lookup_delete_ne).
  split_and!; try done; try by apply Get_result_lookup.
  - by rewrite Hr2, lookup_delete_ne.
  - by rewrite Hw2, lookup_delete_ne.
Qed.

(** ** Each *)

Lemma visits_fmap_Visit (l : list (K * S)) :
  visits ((λ kv, Visit kv.1 kv.2) <$> l) = l.
Proof.
  unfold visits. induction l as [|[k v] l IH]; [done|].
  csimpl. by f_equal.
Qed.

Lemma all_equal_NoDup {A} (x : A) (l : list A) :
  NoDup l → (∀ y, y ∈ l → y = x) → x ∈ l → l = [x].
Proof.
  intros Hnd Hall Hin. destruct l as [|y l]; [by apply elem_of_nil in Hin|].
  rewrite (Hall y) by apply list_elem_of_here. f_equal.
  destruct l as [|z l]; [done|]. exfalso.
  apply NoDup_cons in Hnd as [Hy _]. apply Hy.
  rewrite (Hall y), <-(Hall z); [apply list_elem_of_here| |apply list_elem_of_here].
  apply list_elem_of_further, list_elem_of_here.
Qed.

Lemma visits_of_map_to_list (m : gmap K S) k :
  visits_of k (map_to_list m) =
    match m !! k with Some v => [(k, v)] | None => [] end.
Proof.
  unfold visits_of.
  assert (Hin : ∀ kv, kv ∈ filter (λ kv, kv.1 = k) (map_to_list m)
                      ↔ kv.1 = k ∧ m !! kv.1 = Some kv.2).
  { intros [k' v']. by rewrite list_elem_of_filter, elem_of_map_to_list. }
  destruct (m !! k) as [v|] eqn:Hk.
  - apply all_equal_NoDup.
    + apply NoDup_filter, NoDup_map_to_list.
    + intros [k' v'] [Hk' Hv']%Hin. simpl in *. subst k'. congruence.
    + apply Hin. by simpl.
  - apply elem_of_nil_inv. intros [k' v'] [Hk' Hv']%Hin. simpl in *.
    subst k'. congruence.
Qed.

Lemma visits_of_Permutation k (l1 l2 : list (K * S)) :
  l1 ≡ₚ l2 → visits_of k l1 ≡ₚ visits_of k l2.
Proof. unfold visits_of. by intros ->. Qed.

Lemma visits_of_range_order (m : gmap K S) k :
  visits_of k (range_order (map_to_list m)) =
    match m !! k with Some v => [(k, v)] | None => [] end.
Proof.
  pose proof (visits_of_Permutation k _ _ (range_order_perm (map_to_list m)))
    as Hp.
  rewrite visits_of_map_to_list in Hp.
  destruct (m !! k) as [v|].
  - by apply Permutation_singleton_r.
  - by apply Permutation_nil_r.
Qed.

(** C6. [Each fn] invokes the visitor exactly once for each (key,
    service) pair in the [services] map: the visits are the entries of
    the map in the order the runtime picks, a registered key is visited
    exactly once, with its service, a key that is not registered (one
    removed before the call, say) is not visited, nothing else is called,
    and the registry state is unchanged. *)
Theorem Each_visits_each_entry_once {A} (fn : K → S → A → A) a s :
  visits (calls (Each fn a s)) ≡ₚ map_to_list (services s) ∧
  (∀ k, visits_of k (visits (calls (Each fn a s))) =
          match services s !! k with Some v => [(k, v)] | None => [] end) ∧
  (∀ k, visits_of k (visits (calls (Each fn a (state_after (Remove k s)))))
        = []) ∧
  calls (Each fn a s) =
    (λ kv, Visit kv.1 kv.2) <$> visits (calls (Each fn a s)) ∧
  result (Each fn a s) =
    foldl (λ acc kv, fn kv.1 kv.2 acc) a (visits (calls (Each fn a s))) ∧
  state_after (Each fn a s) = s.
Proof.
  assert (Hv : ∀ s', visits (calls (Each fn a s'))
                     = range_order (map_to_list (services s'))).
  { intros s'. rewrite Each_eq. apply visits_fmap_Visit. }
  rewrite !Hv. split_and!.
  - apply range_order_perm.
  - apply visits_of_range_order.
  - intros k. rewrite Hv, visits_of_range_order.
    destruct (Remove_maps s k) as [-> _]. by rewrite lookup_delete_eq.
  - by rewrite Each_eq.
  - by rewrite Each_eq.
  - by rewrite Each_eq.
Qed.

(** * Further properties of the methods *)

(** ** What the methods compute, in any state *)

Lemma Add_state_eq s k v :
  state_after (Add k v s) =
    mk_serviceMap (<[k:=v]> (services s))
                  (<[k:=token_of_Add s k v]> (tokens s))
                  (sup_Add v (supervisor_at_start s k)).2 (eventLogger s).
Proof.
  unfold token_of_Add, supervisor_at_start.
  destruct (tokens s !! k) as [tok|] eqn:Hk.
  - by rewrite (Add_occupied_eq s k v tok Hk).
  - by rewrite (Add_vacant_eq s k v Hk).
Qed.

Lemma Add_calls_eq s k v :
  calls (Add k v s) =
    match tokens s !! k with
    | Some tok =>
        [SupRemove tok; LogCall (eventLogger s) Failure (replaced_message k);
         SupAdd v]
    | None => [SupAdd v]
    end.
Proof.
  destruct (tokens s !! k) as [tok|] eqn:Hk.
  - by rewrite (Add_occupied_eq s k v tok Hk).
  - by rewrite (Add_vacant_eq s k v Hk).
Qed.

Lemma Remove_result_eq s k :
  result (Remove k s) = bool_decide (is_Some (tokens s !! k)).
Proof.
  destruct (tokens s !! k) as [tok|] eqn:Hk.
  - rewrite (Remove_present_eq s k tok Hk). symmetry. by apply bool_decide_eq_true.
  - rewrite (Remove_absent_eq s k Hk). symmetry. apply bool_decide_eq_false.
    by intros [? ?].
Qed.

Lemma calls_discard {A} (m : M A) s : calls ((m ;; mret tt) s) = calls (m s).
Proof.
  unfold mbind, M_bind, mret, M_ret, calls.
  destruct (m s) as [[a s1] t1]. simpl. apply app_nil_r.
Qed.

(** ** Round trips *)

(** X1. In any state, also one whose maps disagree, [Get k] right after
    [Add k v] returns [(v, true)], and [k] has an entry in both maps. *)
Theorem Add_then_Get s k v :
  result (Get k (state_after (Add k v s))) = (v, true) ∧
  registered (state_after (Add k v s)) k ∧
  is_Some (tokens (state_after (Add k v s)) !! k).
Proof.
  rewrite Get_eq, Add_state_eq. unfold registered, result. simpl.
  rewrite !lookup_insert_eq. by split_and!.
Qed.

(** X2. In any state, [Get k] right after [Remove k] or
    [RemoveAndWait k timeout] returns the zero value and [false]. *)
Theorem Get_after_removal s k timeout :
  result (Get k (state_after (Remove k s))) = (zero, false) ∧
  result (Get k (state_after (RemoveAndWait k timeout s))) = (zero, false).
Proof.
  rewrite !Get_eq.
  destruct (Remove_maps s k) as [-> _].
  destruct (RemoveAndWait_maps s k timeout) as [-> _].
  unfold result. simpl. by rewrite lookup_delete_eq.
Qed.

(** X3. The token [Add k v] stores under [k] is the one the supervisor
    returned for [v], and a [Remove k] or [RemoveAndWait k timeout] that
    follows returns [true] and requests the stop of exactly that token. *)
Theorem Add_then_Remove_stops_its_token s k v timeout :
  tokens (state_after (Add k v s)) !! k = Some (token_of_Add s k v) ∧
  result (Remove k (state_after (Add k v s))) = true ∧
  calls (Remove k (state_after (Add k v s)))
    = [SupRemove (token_of_Add s k v)] ∧
  result (RemoveAndWait k timeout (state_after (Add k v s))) = true ∧
  calls (RemoveAndWait k timeout (state_after (Add k v s)))
    = [SupRemoveAndWait (token_of_Add s k v) timeout].
Proof.
  assert (Htok : tokens (state_after (Add k v s)) !! k
                 = Some (token_of_Add s k v)).
  { rewrite Add_state_eq. simpl. apply lookup_insert_eq. }
  rewrite (Remove_present_eq _ k _ Htok).
  rewrite (RemoveAndWait_present_eq _ k timeout _ Htok).
  by split_and!.
Qed.

(** X4. Last write wins: after [Add k v1] and then [Add k v2], whatever
    the state before, [services] is as after [Add k v2] alone, [Get k]
    returns [v2], and the second [Add] stops the token the supervisor
    returned for [v1], notifies the logger once and starts [v2]. *)
Theorem Add_twice_last_write_wins s k v1 v2 :
  services (state_after (Add k v2 (state_after (Add k v1 s))))
    = services (state_after (Add k v2 s)) ∧
  dom (tokens (state_after (Add k v2 (state_after (Add k v1 s)))))
    = dom (tokens (state_after (Add k v2 s))) ∧
  result (Get k (state_after (Add k v2 (state_after (Add k v1 s)))))
    = (v2, true) ∧
  calls (Add k v2 (state_after (Add k v1 s)))
    = [SupRemove (token_of_Add s k v1);
       LogCall (eventLogger s) Failure (replaced_message k);
       SupAdd v2].
Proof.
  rewrite Add_calls_eq, Get_eq, !Add_state_eq. unfold result. simpl.
  rewrite !lookup_insert_eq, !insert_insert_eq, !dom_insert_L.
  by split_and!.
Qed.

(** X5. [Remove] and [RemoveAndWait] do the same bookkeeping: in any
    state they return the same result, leave the same maps and logger,
    and request the stop of the same tokens; neither starts a service or
    emits a notification, and the wait carries the timeout it was given. *)
Theorem Remove_and_RemoveAndWait_agree s k timeout :
  result (RemoveAndWait k timeout s) = result (Remove k s) ∧
  services (state_after (RemoveAndWait k timeout s))
    = services (state_after (Remove k s)) ∧
  tokens (state_after (RemoveAndWait k timeout s))
    = tokens (state_after (Remove k s)) ∧
  eventLogger (state_after (RemoveAndWait k timeout s))
    = eventLogger (state_after (Remove k s)) ∧
  stopped (calls (RemoveAndWait k timeout s)) = stopped (calls (Remove k s)) ∧
  (waited_stops (calls (RemoveAndWait k timeout s))).*1
    = stops (calls (Remove k s)) ∧
  Forall (λ w, w.2 = timeout) (waited_stops (calls (RemoveAndWait k timeout s))) ∧
  stops (calls (RemoveAndWait k timeout s)) = [] ∧
  waited_stops (calls (Remove k s)) = [] ∧
  starts (calls (RemoveAndWait k timeout s)) = [] ∧
  starts (calls (Remove k s)) = [] ∧
  notifications (calls (RemoveAndWait k timeout s)) = [] ∧
  notifications (calls (Remove k s)) = [].
Proof.
  destruct (tokens s !! k) as [tok|] eqn:Hk.
  - rewrite (Remove_present_eq s k tok Hk).
    rewrite (RemoveAndWait_present_eq s k timeout tok Hk).
    split_and!; try done; by repeat constructor.
  - rewrite (Remove_absent_eq s k Hk).
    rewrite (RemoveAndWait_absent_eq s k timeout Hk).
    split_and!; try done; by repeat constructor.
Qed.

(** X6. Adding a service at a vacant key and removing it again restores
    both maps, and the removal reports [true]. *)
Theorem Add_then_Remove_restores_maps s k v :
  consistent s →
  services s !! k = None →
  services (state_after (Remove k (state_after (Add k v s)))) = services s ∧
  tokens (state_after (Remove k (state_after (Add k v s)))) = tokens s ∧
  result (Remove k (state_after (Add k v s))) = true.
Proof.
  intros Hc Hk. pose proof (consistent_vacant s k Hc Hk) as Ht.
  destruct (Remove_maps (state_after (Add k v s)) k) as [-> ->].
  rewrite Remove_result_eq, Add_state_eq. simpl.
  rewrite !delete_insert_id by done. rewrite lookup_insert_eq.
  split_and!; [done..|]. by apply bool_decide_eq_true.
Qed.

(** X7. Operations on two different keys do not interfere: two [Add]s
    give the same [services] in either order, two [Remove]s give the same
    maps in either order, an [Add] and a [Remove] give the same [services]
    in either order, and what [Remove j] returns is not changed by an
    [Add] or [Remove] at another key before it. *)
Theorem distinct_keys_commute s k j v w :
  j ≠ k →
  services (state_after (Add j w (state_after (Add k v s))))
    = services (state_after (Add k v (state_after (Add j w s)))) ∧
  services (state_after (Remove j (state_after (Remove k s))))
    = services (state_after (Remove k (state_after (Remove j s)))) ∧
  tokens (state_after (Remove j (state_after (Remove k s))))
    = tokens (state_after (Remove k (state_after (Remove j s)))) ∧
  services (state_after (Remove j (state_after (Add k v s))))
    = services (state_after (Add k v (state_after (Remove j s)))) ∧
  result (Remove j (state_after (Remove k s))) = result (Remove j s) ∧
  result (Remove j (state_after (Add k v s))) = result (Remove j s).
Proof.
  intros Hne.
  pose proof (λ s' a, proj1 (Remove_maps s' a)) as Hrs.
  pose proof (λ s' a, proj2 (Remove_maps s' a)) as Hrt.
  assert (Has : ∀ s' a b,
            services (state_after (Add a b s')) = <[a:=b]> (services s'))
    by (intros; by rewrite Add_state_eq).
  assert (Hat : ∀ s' a b,
            tokens (state_after (Add a b s'))
            = <[a:=token_of_Add s' a b]> (tokens s'))
    by (intros; by rewrite Add_state_eq).
  rewrite !Remove_result_eq.
  repeat first [rewrite Hrs | rewrite Hrt | rewrite Has | rewrite Hat].
  rewrite lookup_delete_ne, lookup_insert_ne by done.
  split_and!; try done.
  - by apply insert_insert_ne.
  - apply delete_delete.
  - apply delete_delete.
  - by apply delete_insert_ne.
Qed.

(** ** A fresh registry *)

(** X8. A registry fresh from [newServiceMap] holds nothing: [Get]
    returns the zero value and [false], [Remove] and [RemoveAndWait]
    return [false], call nothing and leave the registry as it is, [Each]
    never calls the visitor, and a first [Add] only starts its service.
    Its supervisor was created under the registry's own [String]. *)
Theorem fresh_registry_is_empty {A} logger k v timeout (fn : K → S → A → A) a :
  result (Get k (newServiceMap logger)) = (zero, false) ∧
  Remove k (newServiceMap logger) = (false, newServiceMap logger, []) ∧
  RemoveAndWait k timeout (newServiceMap logger)
    = (false, newServiceMap logger, []) ∧
  Each fn a (newServiceMap logger) = (a, newServiceMap logger, []) ∧
  calls (Add k v (newServiceMap logger)) = [SupAdd v] ∧
  supervisor (newServiceMap logger) = sup_New String.
Proof.
  rewrite Get_eq, Each_eq, Add_calls_eq.
  rewrite Remove_absent_eq, RemoveAndWait_absent_eq by apply lookup_empty.
  unfold newServiceMap, result, calls. simpl.
  rewrite !lookup_empty, !delete_empty, map_to_list_empty.
  assert (Hnil : range_order [] = []).
  { apply Permutation_nil_r, range_order_perm. }
  rewrite Hnil. by split_and!.
Qed.

(** ** Tokens over a sequence of operations *)

Lemma linked_mono h h' s : linked h s → linked (h ++ h') s.
Proof.
  intros Hl k tok Hk. destruct (Hl k tok Hk) as (v & Hv & Hin).
  exists v. split; [done|]. apply elem_of_app. by left.
Qed.

Lemma perform_maps_unchanged o s :
  match o with OpGet _ | OpEach _ | OpServe _ => True | _ => False end →
  services (state_after (perform o s)) = services s ∧
  tokens (state_after (perform o s)) = tokens s ∧
  eventLogger (state_after (perform o s)) = eventLogger s.
Proof.
  destruct o as [k v|k|k|k timeout|fn|ctx]; simpl; intros []
  ; rewrite ?state_after_discard.
  - by rewrite Get_eq.
  - by rewrite Each_eq.
  - by rewrite Serve_eq.
Qed.

Lemma perform_linked h o s :
  linked h s → linked (h ++ issued o s) (state_after (perform o s)).
Proof.
  intros Hl.
  assert (Hquiet : ∀ o', services (state_after (perform o' s)) = services s →
                         tokens (state_after (perform o' s)) = tokens s →
                         linked (h ++ issued o' s) (state_after (perform o' s))).
  { intros o' Hs Ht k' tok. rewrite Hs, Ht. by apply linked_mono. }
  destruct o as [k v|k|k|k timeout|fn|ctx];
    try (by apply Hquiet; apply perform_maps_unchanged).
  - simpl. rewrite Add_state_eq. intros k' tok. simpl.
    destruct (decide (k = k')) as [<-|Hne].
    + rewrite !lookup_insert_eq. intros [= <-]. exists v. split; [done|].
      apply elem_of_app. right. apply list_elem_of_here.
    + rewrite !lookup_insert_ne by done. intros Hk'.
      by apply (linked_mono h _ s Hl).
  - simpl. rewrite state_after_discard. intros k' tok.
    destruct (Remove_maps s k) as [-> ->].
    destruct (decide (k = k')) as [<-|Hne].
    + by rewrite lookup_delete_eq.
    + rewrite !lookup_delete_ne by done. by apply linked_mono.
  - simpl. rewrite state_after_discard. intros k' tok.
    destruct (RemoveAndWait_maps s k timeout) as [-> ->].
    destruct (decide (k = k')) as [<-|Hne].
    + by rewrite lookup_delete_eq.
    + rewrite !lookup_delete_ne by done. by apply linked_mono.
Qed.

Lemma run_linked h ops s :
  linked h s → linked (h ++ issued_along ops s) (run ops s).
Proof.
  revert h s. induction ops as [|o ops IH]; intros h s Hl; simpl.
  - by rewrite app_nil_r.
  - rewrite app_assoc. by apply IH, perform_linked.
Qed.

Lemma linked_new logger : linked [] (newServiceMap logger).
Proof. intros k tok. simpl. by rewrite lookup_empty. Qed.

Lemma stopped_Visit (l : list (K * S)) :
  stopped ((λ kv, Visit kv.1 kv.2) <$> l) = [] ∧
  starts ((λ kv, Visit kv.1 kv.2) <$> l) = [] ∧
  notifications ((λ kv, Visit kv.1 kv.2) <$> l) = [].
Proof. by induction l as [|[k v] l IH]. Qed.

Lemma perform_calls_quiet o s :
  match o with OpGet _ | OpEach _ | OpServe _ => True | _ => False end →
  stopped (calls (perform o s)) = [] ∧
  starts (calls (perform o s)) = [] ∧
  notifications (calls (perform o s)) = [].
Proof.
  destruct o as [k v|k|k|k timeout|fn|ctx]; simpl; intros []
  ; rewrite ?calls_discard.
  - by rewrite Get_eq.
  - rewrite Each_eq. apply stopped_Visit.
  - by rewrite Serve_eq.
Qed.

Lemma perform_stops_linked h o s :
  linked h s →
  Forall (λ tok, ∃ v, (v, tok) ∈ h) (stopped (calls (perform o s))).
Proof.
  intros Hl.
  destruct o as [k v|k|k|k timeout|fn|ctx];
    try (match goal with
         | |- context [perform ?o' s] =>
             by rewrite (proj1 (perform_calls_quiet o' s I))
         end).
  - simpl. rewrite Add_calls_eq.
    destruct (tokens s !! k) as [tok|] eqn:Hk; [|by constructor].
    destruct (Hl k tok Hk) as (old & _ & Hin).
    repeat constructor. by exists old.
  - simpl. rewrite calls_discard.
    destruct (tokens s !! k) as [tok|] eqn:Hk.
    + rewrite (Remove_present_eq s k tok Hk).
      destruct (Hl k tok Hk) as (old & _ & Hin).
      repeat constructor. by exists old.
    + rewrite (Remove_absent_eq s k Hk). constructor.
  - simpl. rewrite calls_discard.
    destruct (tokens s !! k) as [tok|] eqn:Hk.
    + rewrite (RemoveAndWait_present_eq s k timeout tok Hk).
      destruct (Hl k tok Hk) as (old & _ & Hin).
      repeat constructor. by exists old.
    + rewrite (RemoveAndWait_absent_eq s k timeout Hk). constructor.
Qed.

(** X9. After any sequence of operations on a fresh registry, every
    token in [tokens] sits under a key that [services] has too, and it is
    the token the supervisor returned, during that sequence, when the
    service now stored under that key was started. *)
Theorem stored_tokens_were_issued logger (ops : list Op) :
  map_Forall
    (λ k tok, ∃ v, services (run ops (newServiceMap logger)) !! k = Some v ∧
                   (v, tok) ∈ issued_along ops (newServiceMap logger))
    (tokens (run ops (newServiceMap logger))).
Proof.
  intros k tok Hk.
  by apply (run_linked [] ops (newServiceMap logger) (linked_new logger)).
Qed.

(** X10. The registry only stops what it started: whatever operation
    follows a sequence of operations on a fresh registry, each token it
    asks the supervisor to stop, with or without a wait, is one the
    supervisor returned for a service started earlier in the sequence. *)
Theorem stops_only_issued_tokens logger (ops : list Op) (o : Op) :
  Forall (λ tok, ∃ v, (v, tok) ∈ issued_along ops (newServiceMap logger))
         (stopped (calls (perform o (run ops (newServiceMap logger))))).
Proof.
  apply perform_stops_linked.
  apply (run_linked [] ops (newServiceMap logger) (linked_new logger)).
Qed.

(** ** Starts, stops and notifications over a sequence of operations *)






Lemma perform_notifications o s :
  eventLogger (state_after (perform o s)) = eventLogger s ∧
  Forall (λ n, ∃ k, n = (eventLogger s, Failure, replaced_message k))
         (notifications (calls (perform o s))) ∧
  length (notifications (calls (perform o s)))
    ≤ length (stops (calls (perform o s))).
Proof.
  destruct o as [k v|k|k|k timeout|fn|ctx];
    try (match goal with
         | |- context [perform ?o' s] =>
             destruct (perform_calls_quiet o' s I) as (_ & _ & ->);
             destruct (perform_maps_unchanged o' s I) as (_ & _ & ->);
             split_and!; [done|constructor|simpl; lia]
         end).
  - simpl. rewrite Add_calls_eq, Add_state_eq. simpl.
    destruct (tokens s !! k) as [tok|]; simpl.
    + split_and!; [done| |done]. repeat constructor. by exists k.
    + split_and!; [done|constructor|done].
  - simpl. rewrite calls_discard, state_after_discard.
    destruct (tokens s !! k) as [tok|] eqn:Hk.
    + rewrite (Remove_present_eq s k tok Hk). simpl.
      split_and!; [done|constructor|lia].
    + rewrite (Remove_absent_eq s k Hk). simpl.
      split_and!; [done|constructor|done].
  - simpl. rewrite calls_discard, state_after_discard.
    destruct (tokens s !! k) as [tok|] eqn:Hk.
    + rewrite (RemoveAndWait_present_eq s k timeout tok Hk). simpl.
      split_and!; [done|constructor|done].
    + rewrite (RemoveAndWait_absent_eq s k timeout Hk). simpl.
      split_and!; [done|constructor|done].
Qed.

Lemma run_notifications ops s :
  eventLogger (run ops s) = eventLogger s ∧
  Forall (λ n, ∃ k, n = (eventLogger s, Failure, replaced_message k))
         (notifications (calls_along ops s)) ∧
  length (notifications (calls_along ops s))
    ≤ length (stops (calls_along ops s)).
Proof.
  revert s. induction ops as [|o ops IH]; intros s; simpl.
  - split_and!; [done|constructor|done].
  - destruct (perform_notifications o s) as (Hlog & Hall & Hlen).
    destruct (IH (state_after (perform o s))) as (Hlog' & Hall' & Hlen').
    rewrite Hlog in Hlog', Hall'.
    unfold notifications, stops in *. rewrite !omap_app, !length_app.
    split_and!; [done| |lia]. by apply Forall_app.
Qed.

(** X12. Over any sequence of operations on a fresh registry, every
    notification goes to the logger given to [newServiceMap], has severity
    [Failure] and carries the replacement message for some key; the
    registry keeps that logger; and there are never more notifications
    than stops issued without a wait. *)
Theorem notifications_are_replacements logger (ops : list Op) :
  eventLogger (run ops (newServiceMap logger)) = logger ∧
  Forall (λ n, ∃ k, n = (logger, Failure, replaced_message k))
         (notifications (calls_along ops (newServiceMap logger))) ∧
  length (notifications (calls_along ops (newServiceMap logger)))
    ≤ length (stops (calls_along ops (newServiceMap logger))).
Proof. apply (run_notifications ops (newServiceMap logger)). Qed.

End service_map.

(** ** Each, whatever order the runtime picks *)

Section Each_order.
Context {K : Type} `{Countable K}.
Context {S Tok Sup Ctx L EventType : Type}.

(** Two iteration orders the runtime may pick. *)
Context (order order' : list (K * S) → list (K * S)).

Local Abbreviation Each_in r :=
  (Each (Tok:=Tok) (Sup:=Sup) (Ctx:=Ctx) (L:=L) (EventType:=EventType) r).

Lemma foldl_Permutation_comm {A B} (f : A → B → A) (l1 l2 : list B) :
  (∀ a x y, f (f a x) y = f (f a y) x) →
  l1 ≡ₚ l2 → ∀ a, foldl f a l1 = foldl f a l2.
Proof.
  intros Hcomm Hp.
  induction Hp as [|x l1 l2 _ IH|x y l|l1 l2 l3 _ IH1 _ IH2]; intros a; simpl.
  - done.
  - apply IH.
  - by rewrite Hcomm.
  - by rewrite IH1.
Qed.

(** X13. When the visitor's effects commute, what [Each] computes does
    not depend on the order in which the runtime ranges over the map: any
    two orders give the same result, and visit the same entries. *)
Theorem Each_result_order_independent {A} (fn : K → S → A → A) a s :
  (∀ l, order l ≡ₚ l) →
  (∀ l, order' l ≡ₚ l) →
  (∀ k1 v1 k2 v2 acc, fn k1 v1 (fn k2 v2 acc) = fn k2 v2 (fn k1 v1 acc)) →
  result (Each_in order fn a s) = result (Each_in order' fn a s) ∧
  visits (calls (Each_in order fn a s))
    ≡ₚ visits (calls (Each_in order' fn a s)).
Proof.
  intros Ho Ho' Hcomm. rewrite !Each_eq. unfold result, calls. simpl.
  rewrite !visits_fmap_Visit. split.
  - apply foldl_Permutation_comm.
    + intros acc [k1 v1] [k2 v2]. simpl. apply Hcomm.
    + by rewrite Ho, Ho'.
  - by rewrite Ho, Ho'.
Qed.

End Each_order.

(** ** RemoveAndWait, whatever the supervisor answers *)

Section RemoveAndWait_outcome.
Context {K : Type} `{Countable K}.
Context {S Tok Sup Ctx Err L EventType : Type}.

(** Two supervisors over the same state: they may answer a stop request
    differently, one reporting completion where the other reports a
    timeout. *)
Context (sv sv' : Supervisor Sup S Tok Ctx Err).

Local Abbreviation RemoveAndWait_on sup :=
  (RemoveAndWait (sv:=sup) (L:=L) (EventType:=EventType)).

(** C4. [RemoveAndWait k timeout] deletes [k] from both maps whatever the
    supervisor answers to the stop request; it returns [true] exactly when
    a service was registered at [k], and makes no call (so does not wait)
    when [k] is absent; and its result and the maps it leaves are the same
    for any two supervisors, and any two supervisor states, run on the
    same maps: completion within the timeout and a timeout cannot be told
    apart from them. *)
Theorem RemoveAndWait_bookkeeping (s s' : serviceMap) (k : K) timeout :
  consistent s →
  services s' = services s →
  tokens s' = tokens s →
  services (state_after (RemoveAndWait_on sv k timeout s))
    = delete k (services s) ∧
  tokens (state_after (RemoveAndWait_on sv k timeout s))
    = delete k (tokens s) ∧
  services (state_after (RemoveAndWait_on sv k timeout s)) !! k = None ∧
  tokens (state_after (RemoveAndWait_on sv k timeout s)) !! k = None ∧
  (result (RemoveAndWait_on sv k timeout s) = true ↔ registered s k) ∧
  (¬ registered s k → calls (RemoveAndWait_on sv k timeout s) = []) ∧
  (registered s k →
     ∃ tok, tokens s !! k = Some tok ∧
            calls (RemoveAndWait_on sv k timeout s)
              = [SupRemoveAndWait tok timeout]) ∧
  result (RemoveAndWait_on sv' k timeout s')
    = result (RemoveAndWait_on sv k timeout s) ∧
  services (state_after (RemoveAndWait_on sv' k timeout s'))
    = services (state_after (RemoveAndWait_on sv k timeout s)) ∧
  tokens (state_after (RemoveAndWait_on sv' k timeout s'))
    = tokens (state_after (RemoveAndWait_on sv k timeout s)).
Proof.
  intros Hc Hs Ht.
  destruct (RemoveAndWait_maps (sv:=sv) (EventType:=EventType) s k timeout)
    as [Hm1 Hm2].
  destruct (RemoveAndWait_maps (sv:=sv') (EventType:=EventType) s' k timeout)
    as [Hm1' Hm2'].
  rewrite Hm1, Hm2, Hm1', Hm2', Hs, Ht, !lookup_delete_eq.
  pose proof (consistent_lookup s k Hc) as Hl. unfold registered.
  destruct (tokens s !! k) as [tok|] eqn:Hk.
  - rewrite (RemoveAndWait_present_eq (sv:=sv) s k timeout tok Hk).
    rewrite (RemoveAndWait_present_eq (sv:=sv') s' k timeout tok)
      by (by rewrite Ht).
    assert (Hr : is_Some (services s !! k)) by (apply Hl; by exists tok).
    split_and!; try done. by exists tok.
  - rewrite (RemoveAndWait_absent_eq (sv:=sv) s k timeout Hk).
    rewrite (RemoveAndWait_absent_eq (sv:=sv') s' k timeout)
      by (by rewrite Ht).
    assert (Hr : ¬ is_Some (services s !! k)).
    { intros Hr%Hl. by destruct Hr. }
    by split_and!.
Qed.

End RemoveAndWait_outcome.

(** * The registry on the stand-in supervisor *)

Module Examples.

(** A supervisor whose services stop at once, and one whose services take
    a second to stop. *)
Abbreviation prompt := (Demo.supervisor 0%Z).
Abbreviation slow := (Demo.supervisor 1000000000%Z).

Abbreviation fresh sup :=
  (newServiceMap (sv:=sup) (fm:=Demo.fmt) (L:=unit) tt).
Abbreviation add sup :=
  (Add (sv:=sup) (fm:=Demo.fmt) (L:=unit) Demo.Failure).
Abbreviation get := (Get (Ctx:=bool) (EventType:=Demo.EventType) "").
Abbreviation remove sup :=
  (Remove (sv:=sup) (L:=unit) (EventType:=Demo.EventType)).
Abbreviation remove_and_wait sup :=
  (RemoveAndWait (sv:=sup) (L:=unit) (EventType:=Demo.EventType)).
Abbreviation each :=
  (Each (Ctx:=bool) (L:=unit) (EventType:=Demo.EventType) reverse).

(** The registry after [Add("a", svc1)], and after a further
    [Add("b", svc2)]. *)
Abbreviation one_service sup :=
  (state_after (add sup "a" "svc1" (fresh sup))).
Abbreviation two_services sup :=
  (state_after (add sup "b" "svc2" (one_service sup))).

Lemma Add_occupied_replaces_witness :
  consistent (one_service prompt) ∧
  services (one_service prompt) !! "a" = Some "svc1" ∧
  ∃ tok,
    tokens (one_service prompt) !! "a" = Some tok ∧
    stops (calls (add prompt "a" "svc2" (one_service prompt))) = [tok] ∧
    waited_stops (calls (add prompt "a" "svc2" (one_service prompt))) = [] ∧
    notifications (calls (add prompt "a" "svc2" (one_service prompt))) =
      [(tt, Demo.Failure,
        String (fm:=Demo.fmt) +:+ " replaced service at key " +:+ "a")] ∧
    starts (calls (add prompt "a" "svc2" (one_service prompt))) = ["svc2"] ∧
    result (get "a" (state_after (add prompt "a" "svc2" (one_service prompt))))
      = ("svc2", true).
Proof.
  assert (Hc : consistent (one_service prompt)) by (vm_compute; reflexivity).
  assert (Hs : services (one_service prompt) !! "a" = Some "svc1")
    by reflexivity.
  split; [exact Hc|]. split; [exact Hs|].
  exact (Add_occupied_replaces "" (sv:=prompt) Demo.Failure (fm:=Demo.fmt)
           (one_service prompt) "a" "svc2" "svc1" Hc Hs).
Defined.

Lemma Add_stops_before_it_starts_witness :
  consistent (one_service prompt) ∧
  services (one_service prompt) !! "a" = Some "svc1" ∧
  ∃ tok before between after,
    tokens (one_service prompt) !! "a" = Some tok ∧
    calls (add prompt "a" "svc2" (one_service prompt)) =
      before ++ SupRemove tok :: between ++ SupAdd "svc2" :: after ∧
    starts before = [] ∧
    starts between = [] ∧
    SupRemove tok ∈ calls (add prompt "a" "svc2" (one_service prompt)) ∧
    LogCall tt Demo.Failure
      (String (fm:=Demo.fmt) +:+ " replaced service at key " +:+ "a")
      ∈ calls (add prompt "a" "svc2" (one_service prompt)).
Proof.
  assert (Hc : consistent (one_service prompt)) by (vm_compute; reflexivity).
  assert (Hs : services (one_service prompt) !! "a" = Some "svc1")
    by reflexivity.
  split; [exact Hc|]. split; [exact Hs|].
  exact (Add_stops_before_it_starts (sv:=prompt) Demo.Failure (fm:=Demo.fmt)
           (one_service prompt) "a" "svc2" "svc1" Hc Hs).
Defined.

Lemma Add_vacant_only_starts_witness :
  consistent (one_service prompt) ∧
  services (one_service prompt) !! "b" = None ∧
  calls (add prompt "b" "svc2" (one_service prompt)) = [SupAdd "svc2"] ∧
  starts (calls (add prompt "b" "svc2" (one_service prompt))) = ["svc2"] ∧
  stops (calls (add prompt "b" "svc2" (one_service prompt))) = [] ∧
  waited_stops (calls (add prompt "b" "svc2" (one_service prompt))) = [] ∧
  notifications (calls (add prompt "b" "svc2" (one_service prompt))) = [].
Proof.
  assert (Hc : consistent (one_service prompt)) by (vm_compute; reflexivity).
  assert (Hs : services (one_service prompt) !! "b" = None) by reflexivity.
  split; [exact Hc|]. split; [exact Hs|].
  exact (Add_vacant_only_starts (sv:=prompt) Demo.Failure (fm:=Demo.fmt)
           (one_service prompt) "b" "svc2" Hc Hs).
Defined.

Lemma Get_reads_services_witness :
  services (one_service prompt) !! "a" = Some "svc1" ∧
  services (one_service prompt) !! "b" = None ∧
  result (get "a" (one_service prompt)) = ("svc1", true) ∧
  result (get "b" (one_service prompt)) = ("", false) ∧
  state_after (get "a" (one_service prompt)) = one_service prompt ∧
  calls (get "a" (one_service prompt)) = [].
Proof.
  assert (Ha : services (one_service prompt) !! "a" = Some "svc1")
    by reflexivity.
  assert (Hb : services (one_service prompt) !! "b" = None) by reflexivity.
  destruct (Get_reads_services (Ctx:=bool) (EventType:=Demo.EventType) ""
              (one_service prompt) "a") as (Hpresent & _ & Hs & Hcalls).
  destruct (Get_reads_services (Ctx:=bool) (EventType:=Demo.EventType) ""
              (one_service prompt) "b") as (_ & Habsent & _).
  split_and!; [exact Ha|exact Hb|exact (Hpresent _ Ha)|exact (Habsent Hb)
              |exact Hs|exact Hcalls].
Defined.

Lemma Remove_semantics_witness :
  consistent (one_service prompt) ∧
  registered (one_service prompt) "a" ∧
  ¬ registered (one_service prompt) "b" ∧
  (result (remove prompt "b" (one_service prompt)) = false ∧
   calls (remove prompt "b" (one_service prompt)) = []) ∧
  (∃ tok, tokens (one_service prompt) !! "a" = Some tok ∧
          result (remove prompt "a" (one_service prompt)) = true ∧
          calls (remove prompt "a" (one_service prompt)) = [SupRemove tok] ∧
          stops (calls (remove prompt "a" (one_service prompt))) = [tok]) ∧
  services (state_after (remove prompt "a" (one_service prompt))) !! "a"
    = None ∧
  tokens (state_after (remove prompt "a" (one_service prompt))) !! "a"
    = None ∧
  result (remove prompt "a"
            (state_after (remove prompt "a" (one_service prompt)))) = false.
Proof.
  assert (Hc : consistent (one_service prompt)) by (vm_compute; reflexivity).
  assert (Ha : registered (one_service prompt) "a") by (by exists "svc1").
  assert (Hb : ¬ registered (one_service prompt) "b").
  { intros [v Hv]. vm_compute in Hv. discriminate Hv. }
  destruct (Remove_semantics (sv:=prompt) (EventType:=Demo.EventType)
              (one_service prompt) "a" Hc)
    as (_ & Hpresent & _ & _ & Hs & Ht & Hagain & _).
  destruct (Remove_semantics (sv:=prompt) (EventType:=Demo.EventType)
              (one_service prompt) "b" Hc)
    as (Habsent & _).
  split_and!; [exact Hc|exact Ha|exact Hb|apply (Habsent Hb)..
              |exact (Hpresent Ha)|exact Hs|exact Ht|exact Hagain].
Defined.

(** On the same maps, the prompt supervisor reports completion and the
    slow one a timeout for a one-nanosecond wait; the registry's answer
    and bookkeeping are the same. *)
Lemma RemoveAndWait_bookkeeping_witness :
  consistent (two_services prompt) ∧
  services (two_services slow) = services (two_services prompt) ∧
  tokens (two_services slow) = tokens (two_services prompt) ∧
  (sup_RemoveAndWait (Supervisor:=prompt) 1%N 1%Z
     (supervisor (two_services prompt))).1 = None ∧
  (sup_RemoveAndWait (Supervisor:=slow) 1%N 1%Z
     (supervisor (two_services slow))).1 = Some Demo.ErrTimeout ∧
  result (remove_and_wait slow "a" 1%Z (two_services slow))
    = result (remove_and_wait prompt "a" 1%Z (two_services prompt)) ∧
  (result (remove_and_wait prompt "a" 1%Z (two_services prompt)) = true
   ↔ registered (two_services prompt) "a") ∧
  services (state_after (remove_and_wait slow "a" 1%Z (two_services slow)))
    !! "a" = None ∧
  tokens (state_after (remove_and_wait slow "a" 1%Z (two_services slow)))
    !! "a" = None.
Proof.
  assert (Hc : consistent (two_services prompt)) by (vm_compute; reflexivity).
  assert (Hc' : consistent (two_services slow)) by (vm_compute; reflexivity).
  assert (Hs : services (two_services slow) = services (two_services prompt))
    by reflexivity.
  assert (Ht : tokens (two_services slow) = tokens (two_services prompt))
    by reflexivity.
  destruct (RemoveAndWait_bookkeeping (EventType:=Demo.EventType) prompt slow
              (two_services prompt) (two_services slow) "a" 1%Z Hc Hs Ht)
    as (_ & _ & _ & _ & Hiff & _ & _ & Hsame & _).
  destruct (RemoveAndWait_bookkeeping (EventType:=Demo.EventType) slow slow
              (two_services slow) (two_services slow) "a" 1%Z Hc' eq_refl eq_refl)
    as (_ & _ & Hgone1 & Hgone2 & _).
  split_and!; [exact Hc|exact Hs|exact Ht|reflexivity|reflexivity
              |exact Hsame|exact Hiff|exact Hgone1|exact Hgone2].
Defined.

Lemma other_keys_untouched_witness :
  "b" ≠ "a" ∧
  (services (state_after (add prompt "a" "svc3" (two_services prompt))) !! "b"
     = services (two_services prompt) !! "b" ∧
   tokens (state_after (add prompt "a" "svc3" (two_services prompt))) !! "b"
     = tokens (two_services prompt) !! "b" ∧
   result (get "b" (state_after (add prompt "a" "svc3" (two_services prompt))))
     = result (get "b" (two_services prompt))) ∧
  (services (state_after (remove prompt "a" (two_services prompt))) !! "b"
     = services (two_services prompt) !! "b" ∧
   tokens (state_after (remove prompt "a" (two_services prompt))) !! "b"
     = tokens (two_services prompt) !! "b" ∧
   result (get "b" (state_after (remove prompt "a" (two_services prompt))))
     = result (get "b" (two_services prompt))) ∧
  (services (state_after (remove_and_wait prompt "a" 5%Z (two_services prompt)))
     !! "b" = services (two_services prompt) !! "b" ∧
   tokens (state_after (remove_and_wait prompt "a" 5%Z (two_services prompt)))
     !! "b" = tokens (two_services prompt) !! "b" ∧
   result (get "b" (state_after
                      (remove_and_wait prompt "a" 5%Z (two_services prompt))))
     = result (get "b" (two_services prompt))).
Proof.
  assert (Hne : "b" ≠ "a") by discriminate.
  split; [exact Hne|].
  exact (other_keys_untouched "" (sv:=prompt) Demo.Failure (fm:=Demo.fmt)
           (two_services prompt) "a" "b" "svc3" 5%Z Hne).
Defined.

(** A visitor that collects the keys it is shown, on a runtime that
    ranges over the map backwards. *)
Lemma Each_visits_each_entry_once_witness :
  (∀ l : list (string * string), reverse l ≡ₚ l) ∧
  visits (calls (each (λ k _ acc, k :: acc) [] (two_services prompt)))
    ≡ₚ map_to_list (services (two_services prompt)) ∧
  visits_of "a"
    (visits (calls (each (λ k _ acc, k :: acc) [] (two_services prompt))))
    = [("a", "svc1")] ∧
  visits_of "c"
    (visits (calls (each (λ k _ acc, k :: acc) [] (two_services prompt))))
    = [] ∧
  visits_of "a"
    (visits (calls (each (λ k _ acc, k :: acc) []
                      (state_after (remove prompt "a" (two_services prompt))))))
    = [] ∧
  state_after (each (λ k _ acc, k :: acc) [] (two_services prompt))
    = two_services prompt.
Proof.
  pose proof (@reverse_Permutation (string * string)) as Hperm.
  destruct (Each_visits_each_entry_once (sv:=prompt) (EventType:=Demo.EventType)
              reverse Hperm (λ k _ acc, k :: acc) [] (two_services prompt))
    as (Hp & Hk & Hr & _ & _ & Hs).
  split_and!; [exact Hperm|exact Hp|exact (Hk "a")|exact (Hk "c")
              |exact (Hr "a")|exact Hs].
Defined.

Lemma Add_then_Remove_restores_maps_witness :
  consistent (one_service prompt) ∧
  services (one_service prompt) !! "b" = None ∧
  services (state_after (remove prompt "b"
              (state_after (add prompt "b" "svc2" (one_service prompt)))))
    = services (one_service prompt) ∧
  tokens (state_after (remove prompt "b"
            (state_after (add prompt "b" "svc2" (one_service prompt)))))
    = tokens (one_service prompt) ∧
  result (remove prompt "b"
            (state_after (add prompt "b" "svc2" (one_service prompt)))) = true.
Proof.
  assert (Hc : consistent (one_service prompt)) by (vm_compute; reflexivity).
  assert (Hs : services (one_service prompt) !! "b" = None) by reflexivity.
  split; [exact Hc|]. split; [exact Hs|].
  exact (Add_then_Remove_restores_maps (sv:=prompt) Demo.Failure
           (fm:=Demo.fmt) (one_service prompt) "b" "svc2" Hc Hs).
Defined.

Lemma distinct_keys_commute_witness :
  "b" ≠ "a" ∧
  services (state_after (add prompt "b" "svc4"
              (state_after (add prompt "a" "svc3" (two_services prompt)))))
    = services (state_after (add prompt "a" "svc3"
                  (state_after (add prompt "b" "svc4" (two_services prompt))))) ∧
  services (state_after (remove prompt "b"
              (state_after (remove prompt "a" (two_services prompt)))))
    = services (state_after (remove prompt "a"
                  (state_after (remove prompt "b" (two_services prompt))))) ∧
  tokens (state_after (remove prompt "b"
            (state_after (remove prompt "a" (two_services prompt)))))
    = tokens (state_after (remove prompt "a"
                (state_after (remove prompt "b" (two_services prompt))))) ∧
  services (state_after (remove prompt "b"
              (state_after (add prompt "a" "svc3" (two_services prompt)))))
    = services (state_after (add prompt "a" "svc3"
                  (state_after (remove prompt "b" (two_services prompt))))) ∧
  result (remove prompt "b"
            (state_after (remove prompt "a" (two_services prompt))))
    = result (remove prompt "b" (two_services prompt)) ∧
  result (remove prompt "b"
            (state_after (add prompt "a" "svc3" (two_services prompt))))
    = result (remove prompt "b" (two_services prompt)).
Proof.
  assert (Hne : "b" ≠ "a") by discriminate.
  split; [exact Hne|].
  exact (distinct_keys_commute (sv:=prompt) Demo.Failure (fm:=Demo.fmt)
           (two_services prompt) "a" "b" "svc3" "svc4" Hne).
Defined.

Lemma fresh_registry_is_empty_witness :
  (∀ l : list (string * string), reverse l ≡ₚ l) ∧
  result (get "a" (fresh prompt)) = ("", false) ∧
  remove prompt "a" (fresh prompt) = (false, fresh prompt, []) ∧
  remove_and_wait prompt "a" 5%Z (fresh prompt) = (false, fresh prompt, []) ∧
  each (λ k _ acc, k :: acc) [] (fresh prompt) = ([], fresh prompt, []) ∧
  calls (add prompt "a" "svc1" (fresh prompt)) = [SupAdd "svc1"] ∧
  supervisor (fresh prompt)
    = sup_New (Supervisor:=prompt) (String (fm:=Demo.fmt)).
Proof.
  pose proof (@reverse_Permutation (string * string)) as Hperm.
  split; [exact Hperm|].
  exact (fresh_registry_is_empty "" (sv:=prompt) Demo.Failure (fm:=Demo.fmt)
           reverse Hperm tt "a" "svc1" 5%Z (λ k _ acc, k :: acc) []).
Defined.

(** A visitor that adds up the lengths of the keys it is shown, on a
    runtime that ranges backwards and on one that ranges forwards. *)
Lemma Each_result_order_independent_witness :
  (∀ l : list (string * string), reverse l ≡ₚ l) ∧
  (∀ l : list (string * string), id l ≡ₚ l) ∧
  (∀ (k1 v1 k2 v2 : string) (acc : nat),
     String.length k1 + (String.length k2 + acc)
     = String.length k2 + (String.length k1 + acc)) ∧
  result (each (λ k _ acc, String.length k + acc) 0 (two_services prompt))
    = result (Each (Ctx:=bool) (L:=unit) (EventType:=Demo.EventType) id
                (λ k _ acc, String.length k + acc) 0 (two_services prompt)) ∧
  visits (calls (each (λ k _ acc, String.length k + acc) 0
                   (two_services prompt)))
    ≡ₚ visits (calls (Each (Ctx:=bool) (L:=unit) (EventType:=Demo.EventType)
                        id (λ k _ acc, String.length k + acc) 0
                        (two_services prompt))).
Proof.
  pose proof (@reverse_Permutation (string * string)) as Hperm.
  assert (Hid : ∀ l : list (string * string), id l ≡ₚ l) by done.
  assert (Hcomm : ∀ (k1 v1 k2 v2 : string) (acc : nat),
            String.length k1 + (String.length k2 + acc)
            = String.length k2 + (String.length k1 + acc))
    by (intros; lia).
  split; [exact Hperm|]. split; [exact Hid|]. split; [exact Hcomm|].
  exact (Each_result_order_independent (Ctx:=bool) (L:=unit)
           (EventType:=Demo.EventType) reverse id
           (λ k _ acc, String.length k + acc) 0 (two_services prompt)
           Hperm Hid Hcomm).
Defined.

(** A short life of a registry: a service is added at "a", replaced,
    a second one is added at "b", and "a" is removed with a wait. *)
Abbreviation short_life :=
  ([OpAdd "a" "svc1"; OpAdd "a" "svc2"; OpGet "a"; OpAdd "b" "svc3";
    OpRemoveAndWait "a" 5%Z; OpRemove "c"; OpServe true]
   : list (@Op string string bool)).

Example short_life_trace :
  calls_along (sv:=prompt) (fm:=Demo.fmt) (L:=unit) "" Demo.Failure reverse
    short_life (fresh prompt)
  = [SupAdd "svc1";
     SupRemove 1%N;
     LogCall tt Demo.Failure
       "serviceMap[string, string]@0xc000012345 replaced service at key a";
     SupAdd "svc2";
     SupAdd "svc3";
     SupRemoveAndWait 2%N 5%Z;
     SupServe true] ∧
  issued_along (sv:=prompt) (fm:=Demo.fmt) (L:=unit)
    (EventType:=Demo.EventType) "" Demo.Failure reverse
    short_life (fresh prompt)
  = [("svc1", 1%N); ("svc2", 2%N); ("svc3", 3%N)] ∧
  map_to_list (tokens (run (sv:=prompt) (fm:=Demo.fmt) (L:=unit)
                         (EventType:=Demo.EventType) "" Demo.Failure reverse
                         short_life (fresh prompt)))
  = [("b", 3%N)].
Proof. split_and!; vm_compute; reflexivity. Qed.

End Examples.
